(** * ex6: angles between pairs of 2D vectors

    A shallow embedding of [ex6.cpp].  The program reads whitespace-separated
    doubles from a text stream, pairs them into 2D vectors ([ingest_dvecs]),
    enumerates all pairs of vectors at distinct positions ([pairwise_elts]),
    orders the pairs by the angle between their two members ([theta_sort])
    and prints one line per pair ([main]).

    Modelling choices:
    - [double] is IEEE 754 binary64 with round-to-nearest-even, i.e. Rocq's
      primitive [float]; [+], [*], [/], [sqrt], [<] and [<=] are the
      primitive operations (no fused multiply-add, no excess precision).
    - [std::acos], the numeric conversion done by [operator>>] and the
      [%g]/[%f] style conversions of the output are library code: they are
      parameters of the model ([acos], [num_get], [fmt_g], [fmt_f]).
    - [std::vector] is [list]; [std::pair] is [prod] ([first] = [fst],
      [second] = [snd]); a thrown exception is the left injection of a sum.
    - [std::sort] is modelled by an insertion sort driven by the comparator:
      it rearranges the sequence and, when the comparator is a strict weak
      order on the elements, puts it in that order.  On NaN keys [<] is not
      such an order and C++ promises nothing about the result; the model
      then does what the insertion sort does. *)

From Stdlib Require Import Ascii String.
From Stdlib Require Import ZArith Arith Bool List Floats Lia.
From Stdlib Require Import Permutation Sorted.
Import ListNotations.

Set Warnings "-inexact-float".

Local Open Scope float_scope.
Local Open Scope list_scope.

(** ** The C++ library pieces the program calls *)

(** [std::runtime_error(what)]: the only exception type the program throws. *)
Inductive exception : Type :=
| runtime_error (what : string).

(** An input stream is the sequence of characters still to be read. *)
Definition istream : Type := list ascii.

(** [std::isspace] in the "C" locale: space, and the controls 9 to 13. *)
Definition isspace (c : ascii) : bool :=
  let n := nat_of_ascii c in
  (n =? 32)%nat || ((9 <=? n)%nat && (n <=? 13)%nat).

(** Skipping of leading whitespace done by a formatted input function. *)
Fixpoint skipws (s : istream) : istream :=
  match s with
  | [] => []
  | c :: s' => if isspace c then skipws s' else s
  end.

Section StdSort.

Context {A : Type}.
Variable comp : A -> A -> bool.

(** One step of insertion sort: [val] goes in front of the first element it
    compares less than. *)
Fixpoint linear_insert (val : A) (sorted : list A) : list A :=
  match sorted with
  | [] => [val]
  | x :: rest => if comp val x then val :: sorted else x :: linear_insert val rest
  end.

(** [std::sort(first, last, comp)] on the whole vector. *)
Definition std_sort (l : list A) : list A :=
  fold_left (fun sorted val => linear_insert val sorted) l [].

End StdSort.

(** ** [struct dvec2 : pair<double, double>] *)

Definition dvec2 : Type := (float * float)%type.

(** [friend double dot(const dvec2& a, const dvec2& b)] *)
Definition dot (a b : dvec2) : float :=
  fst a * fst b + snd a * snd b.

(** [double norm() const] *)
Definition norm (self : dvec2) : float :=
  sqrt (dot self self).

(** [operator==], defaulted: the comparison of [std::pair], member by member
    with the [==] of [double]. *)
Definition dvec2_eqb (a b : dvec2) : bool :=
  (fst a =? fst b) && (snd a =? snd b).

(** [pairwise_elts]: the outer loop takes [it] over the vector, the inner
    loop takes [it2] from [it + 1] to the end and pushes [{*it, *it2}]. *)
Fixpoint pairwise_elts (vecs : list dvec2) : list (dvec2 * dvec2) :=
  match vecs with
  | [] => []
  | v :: rest => map (fun w => (v, w)) rest ++ pairwise_elts rest
  end.

Definition DEFAULT_FNAME : string := "test.txt".

(** How a run of the program ends: [main] returns a status, or an exception
    leaves [main] and [std::terminate] aborts the process. *)
Inductive termination : Type :=
| Returned (status : Z)
| Uncaught (e : exception).

(** The status a shell reports: an aborted process is seen as 128 + SIGABRT. *)
Definition exit_status (t : termination) : Z :=
  match t with
  | Returned status => status
  | Uncaught _ => 134%Z
  end.

(** What a run leaves behind: the text written to standard output and the way
    the process ended. *)
Record outcome : Type := mkOutcome {
  stdout : string;
  ended : termination
}.

Definition newline : string := String (ascii_of_nat 10) EmptyString.

(** The six bytes that open every output line in the source text, before the
    opening parenthesis. *)
Definition theta_glyph : string :=
  string_of_list_ascii (map ascii_of_nat [195; 176; 197; 147; 198; 146]%nat).

Section Program.

(** [std::acos] of the C library. *)
Variable acos : float -> float.

(** The conversion [std::num_get] performs once leading whitespace is
    skipped: on success the value read and the characters left unread. *)
Variable num_get : istream -> option (float * istream).

(** Conversions of a double to text: general form ([{:g}], the default of
    [operator<<]) and fixed form ([{:f}], [std::fixed]). *)
Variable fmt_g : float -> string.
Variable fmt_f : float -> string.

(** [friend double theta(const dvec2& a, const dvec2& b)] *)
Definition theta (a b : dvec2) : float :=
  acos (dot a b / (norm a * norm b)).

(** [operator<<] / [std::formatter<dvec2>]: ["[x, y]"]. *)
Definition dvec2_to_string (v : dvec2) : string :=
  ("[" ++ fmt_g (fst v) ++ ", " ++ fmt_g (snd v) ++ "]")%string.

(** [input >> value] for a double: skip whitespace, fail at end of input,
    otherwise let [num_get] convert. *)
Definition extract_double (input : istream) : option (float * istream) :=
  match skipws input with
  | [] => None
  | s => num_get s
  end.

(** [std::istream_iterator<double>]: the end iterator ([None]), or the value
    last read together with the rest of the stream.  Construction and [++]
    both perform one extraction. *)
Definition istream_iterator : Type := option (float * istream).

(** The [while] loop of [ingest_dvecs]; [fuel] bounds the number of
    iterations, [None] means the bound was reached. *)
Fixpoint ingest_loop (fuel : nat) (instream : istream_iterator)
  (output : list dvec2) : option (exception + list dvec2) :=
  match fuel with
  | O => None
  | S fuel' =>
    match instream with
    | None => Some (inr output)
    | Some (x, input) =>
      match extract_double input with
      | None => Some (inl (runtime_error "mismatched vector elements"))
      | Some (y, input') =>
        ingest_loop fuel' (extract_double input') (output ++ [(x, y)])
      end
    end
  end.

(** [vector<dvec2> ingest_dvecs(std::istream& input)].  Every iteration
    that continues has read two numbers, so one more iteration than there
    are characters is a bound whenever [num_get] consumes what it reads. *)
Definition ingest_dvecs (input : istream) : option (exception + list dvec2) :=
  ingest_loop (S (length input)) (extract_double input) [].

(** The angle of a pair, the key of the sort. *)
Definition theta_of (p : dvec2 * dvec2) : float :=
  theta (fst p) (snd p).

(** The lambda handed to [std::sort]. *)
Definition theta_less (x y : dvec2 * dvec2) : bool :=
  theta (fst x) (snd x) <? theta (fst y) (snd y).

(** [theta_sort] *)
Definition theta_sort (vecs : list dvec2) : list (dvec2 * dvec2) :=
  let pairs := pairwise_elts vecs in
  std_sort theta_less pairs.

(** One output line of [main]. *)
Definition format_line (p : dvec2 * dvec2) : string :=
  let (x, y) := p in
  (theta_glyph ++ "(" ++ dvec2_to_string x ++ ", " ++ dvec2_to_string y
     ++ ") = " ++ fmt_f (theta x y) ++ newline)%string.

(** The body of [main] from the [is_open] test on; [ifile] is [None] when
    the file could not be opened. *)
Definition main_with_file (ifile : option istream) : option outcome :=
  match ifile with
  | None => Some (mkOutcome EmptyString (Uncaught (runtime_error "no input file")))
  | Some input =>
    match ingest_dvecs input with
    | None => None
    | Some (inl e) => Some (mkOutcome EmptyString (Uncaught e))
    | Some (inr vecs) =>
      let vecpairs := theta_sort vecs in
      Some (mkOutcome (String.concat EmptyString (map format_line vecpairs))
                      (Returned 0))
    end
  end.

(** [int main(int argc, char** argv)]; [argv] includes the program name and
    [argc] is its length, [open] is the file system seen through
    [std::ifstream]. *)
Definition main (argv : list string) (open : string -> option istream)
  : option outcome :=
  let argc := length argv in
  let fname := if (argc =? 2)%nat then nth 1 argv EmptyString else DEFAULT_FNAME in
  main_with_file (open fname).

End Program.

(** ** The properties the specification names *)

(** A sequence of pairs is in angle order when every entry's angle is at
    most the angle of the entry that follows it. *)
Definition angle_nondecreasing (acos : float -> float)
  (out : list (dvec2 * dvec2)) : Prop :=
  forall k p q,
    nth_error out k = Some p -> nth_error out (S k) = Some q ->
    (theta_of acos p <=? theta_of acos q) = true.

(** The index pairs [(i, j)] with [i < j < n]: for each smaller index [i] in
    increasing order, the larger indices [j] in increasing order. *)
Definition lex_pairs (n : nat) : list (nat * nat) :=
  flat_map (fun i => map (pair i) (seq (S i) (n - S i))) (seq 0 n).

(** The lexicographic order on index pairs. *)
Definition lex_lt (p q : nat * nat) : Prop :=
  (fst p < fst q)%nat \/ (fst p = fst q /\ (snd p < snd q)%nat).

(** The pair of vectors found at a pair of positions. *)
Definition at_positions (vecs : list dvec2) (ij : nat * nat) : dvec2 * dvec2 :=
  (nth (fst ij) vecs (0, 0), nth (snd ij) vecs (0, 0)).

(** What may follow a token: the end of the text, or whitespace. *)
Definition ws_or_end (rest : istream) : Prop :=
  match rest with
  | [] => True
  | c :: _ => isspace c = true
  end.

(** The text [t] is a token that [num_get] reads as the number [v]: it is
    not empty, holds no whitespace, and is converted to [v] and consumed
    whole wherever it is followed by whitespace or by the end of the text. *)
Definition numeric_token (num_get : istream -> option (float * istream))
  (t : istream) (v : float) : Prop :=
  t <> [] /\ forallb (fun c => negb (isspace c)) t = true /\
  forall rest, ws_or_end rest -> num_get (t ++ rest) = Some (v, rest).

(** [serialised num_get vs input]: the text [input] is the numbers [vs]
    written as whitespace-separated tokens, with optional whitespace before
    the first token and after the last. *)
Inductive serialised (num_get : istream -> option (float * istream))
  : list float -> istream -> Prop :=
| serialised_end (ws : istream) :
    forallb isspace ws = true -> serialised num_get [] ws
| serialised_token (ws t : istream) (v : float) (vs : list float) (rest : istream) :
    forallb isspace ws = true -> numeric_token num_get t v ->
    ws_or_end rest -> serialised num_get vs rest ->
    serialised num_get (v :: vs) (ws ++ t ++ rest).

(** ** Reference instances of the library parameters

    The theorems below hold for every [acos] and every [num_get].  To run
    the model on the inputs of the test suite, here is an evaluation of the
    arc cosine in binary64 (accurate to a few units in the last place; a C
    library may differ in the last bits) and a reader of plain decimal
    numerals. *)

Definition pi : float := 0x1.921fb54442d18p+1.

(** [1/k - u/(k+2) + u^2/(k+4) - ...], the first [terms] terms. *)
Fixpoint atan_series (terms : nat) (k u : float) : float :=
  match terms with
  | O => 0
  | S terms' => 1 / k - u * atan_series terms' (k + 2) u
  end.

(** [tan (a/2)] from [t = tan a]. *)
Definition halve_angle (t : float) : float :=
  t / (1 + sqrt (1 + t * t)).

(** Arc tangent on [0, 1]: three halvings of the angle, then the series. *)
Definition atan_small (t : float) : float :=
  let t3 := halve_angle (halve_angle (halve_angle t)) in
  8 * (t3 * atan_series 10 1 (t3 * t3)).

Definition atan_ref (t : float) : float :=
  if 1 <? t then pi / 2 - atan_small (1 / t) else atan_small t.

(** Arc cosine: NaN outside [-1, 1] and on NaN, [2 atan (sqrt ((1-x)/(1+x)))]
    inside. *)
Definition acos_ref (x : float) : float :=
  if is_nan x || (1 <? abs x) then nan
  else 2 * atan_ref (sqrt (1 - x) / sqrt (1 + x)).

Definition is_digit (c : ascii) : bool :=
  let n := nat_of_ascii c in
  (48 <=? n)%nat && (n <=? 57)%nat.

(** Reads a run of decimal digits, accumulating their value and their
    number. *)
Fixpoint read_digits (s : istream) (acc : Z) (count : nat) : Z * nat * istream :=
  match s with
  | c :: s' =>
    if is_digit c
    then read_digits s' (10 * acc + (Z.of_nat (nat_of_ascii c) - 48))%Z (S count)
    else (acc, count, s)
  | [] => (acc, count, [])
  end.

Definition float_of_Z (z : Z) : float :=
  SF2Prim (binary_normalize prec emax z 0 false).

(** Reads [sign digits . digits] (sign and fraction optional, one digit at
    least) and converts with one division. *)
Definition num_get_ref (s : istream) : option (float * istream) :=
  let (negative, s1) :=
    match s with
    | "-"%char :: r => (true, r)
    | "+"%char :: r => (false, r)
    | _ => (false, s)
    end in
  let '(ip, ni, s2) := read_digits s1 0%Z 0%nat in
  let '(m, nf, s3) :=
    match s2 with
    | "."%char :: r => read_digits r ip 0%nat
    | _ => (ip, 0%nat, s2)
    end in
  if (ni + nf =? 0)%nat then None
  else
    let v := float_of_Z m / float_of_Z (10 ^ Z.of_nat nf) in
    Some (if negative then - v else v, s3).

(** The input of the test suite: five vectors, one per line. *)
Definition test_input : istream :=
  list_ascii_of_string "1 1" ++ list_ascii_of_string newline ++
  list_ascii_of_string "1 2" ++ list_ascii_of_string newline ++
  list_ascii_of_string "1 3" ++ list_ascii_of_string newline ++
  list_ascii_of_string "1 4" ++ list_ascii_of_string newline ++
  list_ascii_of_string "1 5".

(** The test input cut after the first token of its third line. *)
Definition truncated_input : istream :=
  list_ascii_of_string "1 1" ++ list_ascii_of_string newline ++
  list_ascii_of_string "1 2" ++ list_ascii_of_string newline ++
  list_ascii_of_string "1".

(** A file system without any file, and one that holds the test input
    under the name [a.txt] only. *)
Definition no_files (fname : string) : option istream := None.

Definition only_a_txt (fname : string) : option istream :=
  if String.eqb fname "a.txt" then Some test_input else None.

(** A formatter that prints nothing, for runs whose numbers are not looked
    at. *)
Definition fmt_blank (x : float) : string := EmptyString.

Definition test_vecs : list dvec2 :=
  [(1, 1); (1, 2); (1, 3); (1, 4); (1, 5)].

(** The angles the test suite expects, in enumeration order. *)
Definition test_angles : list float :=
  [0.321751; 0.463648; 0.54042; 0.588003; 0.141897;
   0.218669; 0.266252; 0.0767719; 0.124355; 0.0475831].

(** Three copies of the zero vector. *)
Definition zero3 : list dvec2 := [(0, 0); (0, 0); (0, 0)].

(** ** Further notions, for the properties beyond the specification *)

(** The rank of a number in the order of binary64: class first (the
    infinities outermost, zero in the middle), then exponent, then mantissa,
    the last two negated below zero. *)
Definition SFkey (f : spec_float) : Z * (Z * Z) :=
  match f with
  | S754_nan => (0, (0, 0))%Z
  | S754_infinity true => (-2, (0, 0))%Z
  | S754_infinity false => (2, (0, 0))%Z
  | S754_zero _ => (0, (0, 0))%Z
  | S754_finite true m e => (-1, (- e, Zneg m))%Z
  | S754_finite false m e => (1, (e, Zpos m))%Z
  end.

Definition key_lt (a b : Z * (Z * Z)) : Prop :=
  (fst a < fst b)%Z \/
  (fst a = fst b /\
   ((fst (snd a) < fst (snd b))%Z \/
    (fst (snd a) = fst (snd b) /\ (snd (snd a) < snd (snd b))%Z))).

(** The requirement C++ puts on the comparator handed to [std::sort], read
    on the elements that satisfy [P]: irreflexive, transitive, and with a
    transitive incomparability. *)
Definition strict_weak_order {A : Type} (comp : A -> A -> bool) (P : A -> Prop)
  : Prop :=
  (forall x, P x -> comp x x = false) /\
  (forall x y z, P x -> P y -> P z ->
     comp x y = true -> comp y z = true -> comp x z = true) /\
  (forall x y z, P x -> P y -> P z ->
     comp x y = false /\ comp y x = false ->
     comp y z = false /\ comp z y = false ->
     comp x z = false /\ comp z x = false).

(** A sequence of pairs is in angle order throughout when every entry's
    angle is at most the angle of every later entry. *)
Definition angle_ordered (acos : float -> float)
  (out : list (dvec2 * dvec2)) : Prop :=
  forall i j p q, (i < j)%nat ->
    nth_error out i = Some p -> nth_error out j = Some q ->
    (theta_of acos p <=? theta_of acos q) = true.

(** A binary64 value that is a zero of either sign, or NaN. *)
Definition zero_or_nan (x : float) : Prop :=
  Prim2SF x = S754_nan \/ exists s, Prim2SF x = S754_zero s.

(** [yields num_get vs input]: successive extractions from [input] give the
    numbers [vs], and the next one fails (end of text, or a token that is
    not a number). *)
Inductive yields (num_get : istream -> option (float * istream))
  : list float -> istream -> Prop :=
| yields_stop (input : istream) :
    extract_double num_get input = None -> yields num_get [] input
| yields_next (v : float) (vs : list float) (input rest : istream) :
    extract_double num_get input = Some (v, rest) ->
    yields num_get vs rest -> yields num_get (v :: vs) input.

(** Consecutive numbers taken two at a time; a last one without partner is
    left out. *)
Fixpoint pair_up (toks : list float) : list dvec2 :=
  match toks with
  | x :: y :: rest => (x, y) :: pair_up rest
  | _ => []
  end.

(** A conversion that succeeds has consumed at least one character. *)
Definition consumes (num_get : istream -> option (float * istream)) : Prop :=
  forall s v r, num_get s = Some (v, r) -> (length r < length s)%nat.

(** A text with two numbers, then a word that is no number, then a number. *)
Definition junk_input : istream := list_ascii_of_string "1 2 x 3".

(** A text with a single vector. *)
Definition one_vector_input : istream := list_ascii_of_string "1 1".

(** Three vectors, the second of them zero. *)
Definition with_zero : list dvec2 := [(1, 0); (0, 0); (0, 1)].

(** ** Facts about binary64 arithmetic and comparison *)

Section Binary64.

Lemma float_mul_comm (x y : float) : x * y = y * x.
Proof.
  apply Prim2SF_inj. rewrite !mul_spec. unfold SF64mul, SFmul.
  destruct (Prim2SF x) as [sx|sx| |sx mx ex], (Prim2SF y) as [sy|sy| |sy my ey];
    try reflexivity; rewrite (xorb_comm sx sy); try reflexivity.
  now rewrite (Pos.mul_comm mx my), (Z.add_comm ex ey).
Qed.

Lemma float_add_comm (x y : float) : x + y = y + x.
Proof.
  apply Prim2SF_inj. rewrite !add_spec. unfold SF64add, SFadd.
  destruct (Prim2SF x) as [sx|sx| |sx mx ex], (Prim2SF y) as [sy|sy| |sy my ey];
    try reflexivity; try (destruct sx, sy; reflexivity).
  now rewrite (Z.min_comm ex ey), Z.add_comm.
Qed.

(** Swapping the operands of a comparison swaps its outcome. *)
Lemma SFcompare_swap (a b : spec_float) :
  SFcompare b a = option_map CompOpp (SFcompare a b).
Proof.
  destruct a as [sa|sa| |sa ma ea], b as [sb|sb| |sb mb eb]; simpl;
    try reflexivity; try (destruct sa; reflexivity); try (destruct sb; reflexivity);
    try (destruct sa, sb; reflexivity).
  pose proof (Pos.compare_cont_antisym ma mb Eq) as Hm. simpl in Hm.
  destruct sa, sb; try reflexivity;
    rewrite (Z.compare_antisym ea eb); destruct (ea ?= eb)%Z; simpl; try reflexivity;
    rewrite <- Hm; destruct (Pos.compare_cont Eq ma mb); reflexivity.
Qed.

Lemma is_nan_false_compare (x y : float) :
  is_nan x = false -> is_nan y = false ->
  SFcompare (Prim2SF x) (Prim2SF y) <> None.
Proof.
  unfold is_nan. rewrite !eqb_spec. unfold SFeqb.
  destruct (Prim2SF x) as [sx|sx| |sx mx ex], (Prim2SF y) as [sy|sy| |sy my ey];
    simpl; intros Hx Hy; try discriminate.
Qed.

Lemma float_ltb_leb (x y : float) : (x <? y) = true -> (x <=? y) = true.
Proof.
  rewrite ltb_spec, leb_spec. unfold SFltb, SFleb.
  destruct (SFcompare (Prim2SF x) (Prim2SF y)) as [[]|]; auto.
Qed.

(** On numbers, [<=] is the negation of [>]. *)
Lemma float_nlt_le (x y : float) :
  is_nan x = false -> is_nan y = false -> (x <? y) = false -> (y <=? x) = true.
Proof.
  intros Hx Hy. pose proof (is_nan_false_compare x y Hx Hy) as Hc.
  rewrite ltb_spec, leb_spec. unfold SFltb, SFleb.
  rewrite (SFcompare_swap (Prim2SF x) (Prim2SF y)).
  destruct (SFcompare (Prim2SF x) (Prim2SF y)) as [[]|]; simpl; congruence.
Qed.

(** A NaN is neither below nor above anything, itself included. *)
Lemma is_nan_true_spec (x : float) : is_nan x = true -> Prim2SF x = S754_nan.
Proof.
  unfold is_nan. rewrite eqb_spec. unfold SFeqb.
  destruct (Prim2SF x) as [s|s| |s m e]; simpl; try discriminate; try reflexivity.
  - destruct s; discriminate.
  - rewrite Z.compare_refl.
    assert (Hm : Pos.compare_cont Eq m m = Eq) by apply Pos.compare_refl.
    destruct s; rewrite Hm; discriminate.
Qed.

Lemma float_nan_leb (x y : float) :
  is_nan x = true -> (x <=? y) = false /\ (y <=? x) = false.
Proof.
  intros Hx. apply is_nan_true_spec in Hx. rewrite !leb_spec. unfold SFleb.
  rewrite Hx. split; [reflexivity|].
  destruct (Prim2SF y); reflexivity.
Qed.

End Binary64.

(** ** Facts about the model of [std::sort] *)

Section StdSortFacts.

Context {A : Type}.
Variable comp : A -> A -> bool.

Lemma linear_insert_perm (val : A) (sorted : list A) :
  Permutation (linear_insert comp val sorted) (val :: sorted).
Proof.
  induction sorted as [|x rest IH]; simpl.
  - apply Permutation_refl.
  - destruct (comp val x).
    + apply Permutation_refl.
    + apply perm_trans with (x :: val :: rest).
      * now apply perm_skip.
      * apply perm_swap.
Qed.

Lemma fold_insert_perm (l sorted : list A) :
  Permutation (fold_left (fun s v => linear_insert comp v s) l sorted) (sorted ++ l).
Proof.
  revert sorted. induction l as [|v l IH]; intros sorted; simpl.
  - rewrite app_nil_r. apply Permutation_refl.
  - eapply perm_trans; [apply IH|].
    eapply perm_trans; [apply Permutation_app_tail, linear_insert_perm|].
    simpl. apply Permutation_middle.
Qed.

Lemma std_sort_perm (l : list A) : Permutation (std_sort comp l) l.
Proof.
  unfold std_sort. apply (fold_insert_perm l []).
Qed.

(** Sortedness for a relation [le] that the comparator decides on the
    elements at hand (the set [P]). *)
Variable le : A -> A -> Prop.
Variable P : A -> Prop.
Hypothesis comp_le : forall x y, comp x y = true -> le x y.
Hypothesis ncomp_le : forall x y, P x -> P y -> comp x y = false -> le y x.

Lemma linear_insert_hd (val : A) (sorted : list A) (y : A) :
  P val -> P y -> comp val y = false -> HdRel le y sorted ->
  HdRel le y (linear_insert comp val sorted).
Proof.
  intros Hv Hy Hc Hhd. destruct sorted as [|x rest]; simpl.
  - constructor. now apply ncomp_le.
  - destruct (comp val x); constructor.
    + now apply ncomp_le.
    + now inversion Hhd.
Qed.

Lemma linear_insert_sorted (val : A) (sorted : list A) :
  P val -> Forall P sorted -> Sorted le sorted ->
  Sorted le (linear_insert comp val sorted).
Proof.
  intros Hv HP Hs. induction sorted as [|x rest IH]; simpl.
  - repeat constructor.
  - inversion HP as [|? ? Hx HPrest]; subst.
    inversion Hs as [|? ? Hsrest Hhd]; subst.
    destruct (comp val x) eqn:Hc.
    + constructor; [assumption|]. constructor. now apply comp_le.
    + constructor; [now apply IH|]. now apply linear_insert_hd.
Qed.

Lemma linear_insert_Forall (val : A) (sorted : list A) :
  P val -> Forall P sorted -> Forall P (linear_insert comp val sorted).
Proof.
  intros Hv HP.
  apply (Permutation_Forall (Permutation_sym (linear_insert_perm val sorted))).
  now constructor.
Qed.

Lemma fold_insert_sorted (l sorted : list A) :
  Forall P l -> Forall P sorted -> Sorted le sorted ->
  Sorted le (fold_left (fun s v => linear_insert comp v s) l sorted).
Proof.
  revert sorted. induction l as [|v l IH]; intros sorted Hl HP Hs; simpl.
  - assumption.
  - inversion Hl; subst. apply IH; trivial.
    + now apply linear_insert_Forall.
    + now apply linear_insert_sorted.
Qed.

Lemma std_sort_sorted (l : list A) : Forall P l -> Sorted le (std_sort comp l).
Proof.
  intros Hl. unfold std_sort. apply fold_insert_sorted; auto.
Qed.

End StdSortFacts.

(** ** The vector operations *)

Section VectorFacts.

Variable acos : float -> float.

Lemma dot_comm (a b : dvec2) : dot a b = dot b a.
Proof.
  unfold dot.
  now rewrite (float_mul_comm (fst a) (fst b)), (float_mul_comm (snd a) (snd b)).
Qed.

(** C5: the angle between [a] and [b] is the arc cosine of their dot
    product [a.x*b.x + a.y*b.y] divided by the product of their norms, the
    norm of [v] being [sqrt (v.x*v.x + v.y*v.y)]. *)
Theorem theta_formula (ax ay bx by_ : float) :
  dot (ax, ay) (bx, by_) = ax * bx + ay * by_ /\
  norm (ax, ay) = sqrt (ax * ax + ay * ay) /\
  theta acos (ax, ay) (bx, by_) =
    acos ((ax * bx + ay * by_)
          / (sqrt (ax * ax + ay * ay) * sqrt (bx * bx + by_ * by_))) /\
  theta acos (ax, ay) (bx, by_) =
    acos (dot (ax, ay) (bx, by_) / (norm (ax, ay) * norm (bx, by_))).
Proof.
  repeat split.
Qed.

(** C10: the angle is symmetric in its two vectors. *)
Theorem theta_sym (a b : dvec2) : theta acos a b = theta acos b a.
Proof.
  unfold theta.
  now rewrite (dot_comm a b), (float_mul_comm (norm a) (norm b)).
Qed.

End VectorFacts.

(** ** Pair enumeration *)

Section PairwiseFacts.

Lemma lex_pairs_S (n : nat) :
  lex_pairs (S n) =
  map (pair 0%nat) (seq 1 n) ++ map (fun ij => (S (fst ij), S (snd ij))) (lex_pairs n).
Proof.
  unfold lex_pairs. rewrite <- cons_seq. simpl flat_map.
  rewrite Nat.sub_0_r. f_equal.
  rewrite <- seq_shift, flat_map_concat_map, map_map.
  rewrite flat_map_concat_map, concat_map, map_map. f_equal.
  apply map_ext. intros i. simpl Nat.sub.
  rewrite <- (seq_shift (n - S i) (S i)), !map_map. reflexivity.
Qed.

Lemma at_positions_shift (v : dvec2) (rest : list dvec2) (ij : nat * nat) :
  at_positions (v :: rest) (S (fst ij), S (snd ij)) = at_positions rest ij.
Proof.
  reflexivity.
Qed.

Lemma map_nth_seq (rest : list dvec2) (d : dvec2) :
  map (fun j => nth j rest d) (seq 0 (length rest)) = rest.
Proof.
  induction rest as [|w rest IH]; simpl.
  - reflexivity.
  - f_equal. rewrite <- seq_shift, map_map. exact IH.
Qed.

(** The enumeration reads the vector at the index pairs of [lex_pairs]. *)
Lemma pairwise_elts_lex (vecs : list dvec2) :
  pairwise_elts vecs = map (at_positions vecs) (lex_pairs (length vecs)).
Proof.
  induction vecs as [|v rest IH]; simpl length.
  - reflexivity.
  - rewrite lex_pairs_S, map_app, !map_map. simpl pairwise_elts. f_equal.
    + rewrite <- (map_nth_seq rest (0, 0)) at 1.
      rewrite <- seq_shift, !map_map. reflexivity.
    + rewrite IH. apply map_ext. intros ij. symmetry. apply at_positions_shift.
Qed.

Lemma in_lex_pairs (n i j : nat) :
  In (i, j) (lex_pairs n) <-> (i < j < n)%nat.
Proof.
  unfold lex_pairs. rewrite in_flat_map. split.
  - intros [i' [Hi' Hin]]. apply in_map_iff in Hin.
    destruct Hin as [j' [Heq Hj']]. inversion Heq; subst.
    apply in_seq in Hi'. apply in_seq in Hj'. lia.
  - intros H. exists i. split.
    + apply in_seq. lia.
    + apply in_map. apply in_seq. lia.
Qed.

Lemma StronglySorted_app {A : Type} (R : A -> A -> Prop) (l1 l2 : list A) :
  StronglySorted R l1 -> StronglySorted R l2 ->
  (forall x y, In x l1 -> In y l2 -> R x y) ->
  StronglySorted R (l1 ++ l2).
Proof.
  intros H1 H2 Hcross. induction H1 as [|x l1 Hl1 IH Hall]; simpl.
  - assumption.
  - constructor.
    + apply IH. intros a b Ha Hb. apply Hcross; [now right|assumption].
    + apply Forall_app. split; [assumption|].
      apply Forall_forall. intros y Hy. apply Hcross; [now left|assumption].
Qed.

Lemma row_sorted (i a len : nat) :
  StronglySorted lex_lt (map (pair i) (seq a len)).
Proof.
  revert a. induction len as [|len IH]; intros a; simpl.
  - constructor.
  - constructor; [apply IH|]. apply Forall_forall. intros q Hq.
    apply in_map_iff in Hq. destruct Hq as [j [Heq Hj]]. subst q.
    apply in_seq in Hj. right. simpl. lia.
Qed.

Lemma shift_sorted (l : list (nat * nat)) :
  StronglySorted lex_lt l ->
  StronglySorted lex_lt (map (fun ij => (S (fst ij), S (snd ij))) l).
Proof.
  induction 1 as [|p l Hl IH Hall]; simpl; constructor; [assumption|].
  apply Forall_forall. intros q Hq. apply in_map_iff in Hq.
  destruct Hq as [q' [Heq Hq']]. subst q.
  rewrite Forall_forall in Hall. specialize (Hall q' Hq').
  unfold lex_lt in *. simpl. lia.
Qed.

(** The index pairs come in strictly increasing lexicographic order. *)
Lemma lex_pairs_sorted (n : nat) : StronglySorted lex_lt (lex_pairs n).
Proof.
  induction n as [|n IH].
  - constructor.
  - rewrite lex_pairs_S. apply StronglySorted_app.
    + apply row_sorted.
    + now apply shift_sorted.
    + intros x y Hx Hy. apply in_map_iff in Hx. apply in_map_iff in Hy.
      destruct Hx as [j [Hx _]], Hy as [q [Hy _]]. subst x y.
      left. simpl. lia.
Qed.

Lemma lex_lt_irrefl (p : nat * nat) : ~ lex_lt p p.
Proof.
  unfold lex_lt. lia.
Qed.

Lemma StronglySorted_NoDup {A : Type} (R : A -> A -> Prop) (l : list A) :
  (forall x, ~ R x x) -> StronglySorted R l -> NoDup l.
Proof.
  intros Hirr. induction 1 as [|x l Hl IH Hall]; constructor; [|assumption].
  intros Hin. rewrite Forall_forall in Hall. exact (Hirr x (Hall x Hin)).
Qed.

Lemma lex_pairs_length (n : nat) : (2 * length (lex_pairs n) = n * (n - 1))%nat.
Proof.
  induction n as [|n IH].
  - reflexivity.
  - rewrite lex_pairs_S, length_app, !length_map, length_seq.
    destruct n as [|m]; [reflexivity|].
    simpl Nat.sub in *. rewrite Nat.sub_0_r in *. lia.
Qed.

(** C3: on [n] vectors the enumeration returns [n(n-1)/2] pairs; they are
    the pairs [(vecs[i], vecs[j])] read at the index pairs [lex_pairs n],
    which hold every [(i, j)] with [i < j < n] and nothing else, each once,
    in strictly increasing lexicographic order. *)
Theorem pairwise_elts_enumeration (vecs : list dvec2) :
  let n := length vecs in
  length (pairwise_elts vecs) = (n * (n - 1) / 2)%nat /\
  pairwise_elts vecs = map (at_positions vecs) (lex_pairs n) /\
  (forall i j, In (i, j) (lex_pairs n) <-> (i < j < n)%nat) /\
  NoDup (lex_pairs n) /\
  StronglySorted lex_lt (lex_pairs n).
Proof.
  intros n. split; [|split; [|split; [|split]]].
  - rewrite pairwise_elts_lex, length_map. fold n.
    pose proof (lex_pairs_length n) as H.
    apply Nat.div_unique_exact; lia.
  - apply pairwise_elts_lex.
  - apply in_lex_pairs.
  - apply (StronglySorted_NoDup lex_lt); [apply lex_lt_irrefl|apply lex_pairs_sorted].
  - apply lex_pairs_sorted.
Qed.

(** C7: two equal-valued vectors at distinct positions [i < j] still give
    the pair [(vecs[i], vecs[j])]; every pair of the output is read at two
    positions [i < j], so a position is never paired with itself, and a
    lone vector gives no pair. *)
Theorem pairwise_elts_by_position (vecs : list dvec2) (i j : nat) :
  (i < j < length vecs)%nat ->
  dvec2_eqb (nth i vecs (0, 0)) (nth j vecs (0, 0)) = true ->
  In (nth i vecs (0, 0), nth j vecs (0, 0)) (pairwise_elts vecs) /\
  (forall p, In p (pairwise_elts vecs) ->
     exists i' j', (i' < j' < length vecs)%nat /\ p = at_positions vecs (i', j')) /\
  (forall v, pairwise_elts [v] = []).
Proof.
  intros Hij _. rewrite pairwise_elts_lex. split; [|split].
  - apply (in_map (at_positions vecs) _ (i, j)). now apply in_lex_pairs.
  - intros p Hp. apply in_map_iff in Hp. destruct Hp as [[i' j'] [Heq Hin]].
    exists i', j'. split; [now apply in_lex_pairs|now symmetry].
  - reflexivity.
Qed.

End PairwiseFacts.

(** ** The angle sort *)

Section ThetaSortFacts.

Variable acos : float -> float.

Lemma Sorted_adjacent {A : Type} (R : A -> A -> Prop) (l : list A) :
  Sorted R l ->
  forall k p q, nth_error l k = Some p -> nth_error l (S k) = Some q -> R p q.
Proof.
  induction 1 as [|x l Hl IH Hhd]; intros k p q Hp Hq.
  - destruct k; discriminate.
  - destruct k as [|k]; simpl in Hp, Hq.
    + inversion Hp; subst. destruct l as [|y l']; [discriminate|].
      simpl in Hq. inversion Hq; subst. now inversion Hhd.
    + exact (IH k p q Hp Hq).
Qed.

(** C6: the output of [theta_sort] is a permutation of the output of
    [pairwise_elts] on the same vectors. *)
Theorem theta_sort_permutation (vecs : list dvec2) :
  Permutation (theta_sort acos vecs) (pairwise_elts vecs).
Proof.
  unfold theta_sort. apply std_sort_perm.
Qed.

(** The angle sort on inputs whose angles are all numbers. *)
Lemma theta_sort_sorted (vecs : list dvec2) :
  (forall p, In p (pairwise_elts vecs) -> is_nan (theta_of acos p) = false) ->
  Sorted (fun p q => (theta_of acos p <=? theta_of acos q) = true)
         (theta_sort acos vecs).
Proof.
  intros Hnum. unfold theta_sort.
  apply (std_sort_sorted (theta_less acos) _
           (fun p => is_nan (theta_of acos p) = false)).
  - intros x y. apply float_ltb_leb.
  - intros x y Hx Hy. now apply float_nlt_le.
  - now apply Forall_forall.
Qed.

(** C2, amended: when no pair of the input has a NaN angle, the angle is
    non-decreasing along the output of [theta_sort]. *)
Theorem theta_sort_nondecreasing (vecs : list dvec2) :
  (forall p, In p (pairwise_elts vecs) -> is_nan (theta_of acos p) = false) ->
  angle_nondecreasing acos (theta_sort acos vecs).
Proof.
  intros Hnum k p q Hp Hq.
  exact (Sorted_adjacent _ _ (theta_sort_sorted vecs Hnum) k p q Hp Hq).
Qed.

(** A NaN angle in a sequence of two entries or more has a neighbour, and
    compares [<=] with it in neither direction. *)
Lemma nan_breaks_order (out : list (dvec2 * dvec2)) (p : dvec2 * dvec2) :
  In p out -> is_nan (theta_of acos p) = true -> (2 <= length out)%nat ->
  ~ angle_nondecreasing acos out.
Proof.
  intros Hin Hnan Hlen Hmono.
  apply In_nth_error in Hin. destruct Hin as [k Hk].
  destruct (nth_error out (S k)) as [q|] eqn:Hnext.
  - specialize (Hmono k p q Hk Hnext).
    destruct (float_nan_leb _ (theta_of acos q) Hnan) as [Hf _]. congruence.
  - destruct k as [|k].
    + apply nth_error_None in Hnext. lia.
    + destruct (nth_error out k) as [q|] eqn:Hprev.
      * specialize (Hmono k q p Hprev Hk).
        destruct (float_nan_leb _ (theta_of acos q) Hnan) as [_ Hf]. congruence.
      * apply nth_error_None in Hprev.
        assert (Hsome : nth_error out (S k) <> None) by congruence.
        apply nth_error_Some in Hsome. lia.
Qed.

(** X8: the premise of the angle order cannot be dropped: among two pairs
    or more, one pair with a NaN angle breaks the order wherever the sort
    puts it. *)
Theorem theta_sort_nan_breaks_order (vecs : list dvec2) (p : dvec2 * dvec2) :
  In p (pairwise_elts vecs) -> is_nan (theta_of acos p) = true ->
  (2 <= length (pairwise_elts vecs))%nat ->
  ~ angle_nondecreasing acos (theta_sort acos vecs).
Proof.
  intros Hin Hnan Hlen.
  assert (Hperm : Permutation (theta_sort acos vecs) (pairwise_elts vecs))
    by apply std_sort_perm.
  apply (nan_breaks_order (theta_sort acos vecs) p).
  - exact (Permutation_in _ (Permutation_sym Hperm) Hin).
  - exact Hnan.
  - now rewrite (Permutation_length Hperm).
Qed.

(** The angle of two zero vectors is whatever [acos] makes of [0/0]. *)
Lemma theta_zero : theta acos (0, 0) (0, 0) = acos nan.
Proof.
  reflexivity.
Qed.

(** Sorting three copies of the zero vector: the three pairs are equal, and
    so is the order they come out in. *)
Lemma theta_sort_zero3 :
  acos nan = nan ->
  theta_sort acos zero3 = [((0, 0), (0, 0)); ((0, 0), (0, 0)); ((0, 0), (0, 0))].
Proof.
  intros Hnan.
  assert (Hless : theta_less acos ((0, 0), (0, 0)) ((0, 0), (0, 0)) = false).
  { unfold theta_less. simpl fst. simpl snd. now rewrite theta_zero, Hnan. }
  unfold theta_sort, zero3, std_sort.
  cbn [pairwise_elts map app fold_left linear_insert].
  repeat (match goal with
          | |- context [theta_less acos ?a ?b] =>
            replace (theta_less acos a b) with false by (symmetry; exact Hless)
          end; cbn [linear_insert]).
  reflexivity.
Qed.

(** With a NaN angle next to any other the order fails: [NaN <= x] is false. *)
Lemma zero3_not_nondecreasing :
  acos nan = nan -> ~ angle_nondecreasing acos (theta_sort acos zero3).
Proof.
  intros Hnan Hmono. rewrite (theta_sort_zero3 Hnan) in Hmono.
  specialize (Hmono 0%nat ((0, 0), (0, 0)) ((0, 0), (0, 0)) eq_refl eq_refl).
  unfold theta_of in Hmono. simpl fst in Hmono. simpl snd in Hmono.
  rewrite theta_zero, Hnan in Hmono. discriminate.
Qed.

End ThetaSortFacts.

(** ** Ingestion *)

Section IngestFacts.

Variable num_get : istream -> option (float * istream).

Lemma skipws_ws (ws s : istream) :
  forallb isspace ws = true -> skipws (ws ++ s) = skipws s.
Proof.
  induction ws as [|c ws IH]; simpl; intros H.
  - reflexivity.
  - apply andb_prop in H. destruct H as [Hc Hws]. rewrite Hc. now apply IH.
Qed.

Lemma skipws_token (t rest : istream) :
  t <> [] -> forallb (fun c => negb (isspace c)) t = true ->
  skipws (t ++ rest) = t ++ rest /\ t ++ rest <> [].
Proof.
  destruct t as [|c t]; [congruence|]. simpl. intros _ H.
  apply andb_prop in H. destruct H as [Hc _].
  apply negb_true_iff in Hc. rewrite Hc. split; [reflexivity|discriminate].
Qed.

Lemma extract_double_ws (ws : istream) :
  forallb isspace ws = true -> extract_double num_get ws = None.
Proof.
  intros H. unfold extract_double.
  rewrite <- (app_nil_r ws), (skipws_ws ws [] H). reflexivity.
Qed.

Lemma extract_double_token (ws t rest : istream) (v : float) :
  forallb isspace ws = true -> numeric_token num_get t v -> ws_or_end rest ->
  extract_double num_get (ws ++ t ++ rest) = Some (v, rest).
Proof.
  intros Hws [Hne [Hns Hread]] Hrest. unfold extract_double.
  rewrite (skipws_ws ws _ Hws).
  destruct (skipws_token t rest Hne Hns) as [Heq Hnil]. rewrite Heq.
  destruct (t ++ rest) eqn:E; [congruence|]. rewrite <- E. now apply Hread.
Qed.

(** A serialised text is at least as long as the number of its tokens. *)
Lemma serialised_length (vs : list float) (input : istream) :
  serialised num_get vs input -> (length vs <= length input)%nat.
Proof.
  induction 1 as [ws Hws|ws t v vs rest Hws [Hne _] Hrest Hser IH]; simpl.
  - lia.
  - rewrite !length_app. destruct t; [congruence|]. simpl. lia.
Qed.

(** Reading from a serialised text yields its first number and leaves the
    serialisation of the others. *)
Lemma serialised_cons (v : float) (vs : list float) (input : istream) :
  serialised num_get (v :: vs) input ->
  exists rest, extract_double num_get input = Some (v, rest) /\
               serialised num_get vs rest.
Proof.
  intros H. inversion H as [|ws t v' vs' rest Hws Htok Hrest Hser]; subst.
  exists rest. split; [now apply extract_double_token|assumption].
Qed.

Lemma serialised_nil (input : istream) :
  serialised num_get [] input -> extract_double num_get input = None.
Proof.
  intros H. inversion H; subst. now apply extract_double_ws.
Qed.

(** The loop on an even number of tokens. *)
Lemma ingest_loop_even (N : nat) :
  forall toks input out fuel,
    length toks = (2 * N)%nat -> serialised num_get toks input -> (N < fuel)%nat ->
    exists vecs,
      ingest_loop num_get fuel (extract_double num_get input) out
        = Some (inr (out ++ vecs)) /\
      length vecs = N /\
      forall k, (k < N)%nat ->
        nth k vecs (0, 0) = (nth (2 * k) toks 0, nth (2 * k + 1) toks 0).
Proof.
  induction N as [|N IH]; intros toks input out fuel Hlen Hser Hfuel.
  - destruct toks; [|discriminate]. destruct fuel as [|fuel]; [lia|].
    exists []. rewrite (serialised_nil _ Hser), app_nil_r. simpl.
    repeat split. intros k Hk. lia.
  - destruct toks as [|x [|y toks]]; try (simpl in Hlen; lia).
    destruct fuel as [|fuel]; [lia|].
    destruct (serialised_cons _ _ _ Hser) as [r1 [E1 Hser1]].
    destruct (serialised_cons _ _ _ Hser1) as [r2 [E2 Hser2]].
    destruct (IH toks r2 (out ++ [(x, y)]) fuel) as [vecs [Hrun [Hn Hnth]]];
      [simpl in Hlen; lia|assumption|lia|].
    exists ((x, y) :: vecs). rewrite E1. simpl ingest_loop. rewrite E2, Hrun.
    rewrite <- app_assoc.
    split; [reflexivity|split; [simpl; now rewrite Hn|]].
    intros [|k] Hk; [reflexivity|].
    replace (2 * S k)%nat with (S (S (2 * k))) by lia.
    replace (S (S (2 * k)) + 1)%nat with (S (S (2 * k + 1))) by lia.
    simpl nth. apply Hnth. lia.
Qed.

(** The loop on an odd number of tokens. *)
Lemma ingest_loop_odd (N : nat) :
  forall toks input out fuel,
    length toks = (2 * N + 1)%nat -> serialised num_get toks input ->
    (N < fuel)%nat ->
    ingest_loop num_get fuel (extract_double num_get input) out
      = Some (inl (runtime_error "mismatched vector elements")).
Proof.
  induction N as [|N IH]; intros toks input out fuel Hlen Hser Hfuel.
  - destruct toks as [|x [|y toks]]; try discriminate.
    destruct fuel as [|fuel]; [lia|].
    destruct (serialised_cons _ _ _ Hser) as [r1 [E1 Hser1]].
    rewrite E1. simpl. now rewrite (serialised_nil _ Hser1).
  - destruct toks as [|x [|y toks]]; try (simpl in Hlen; lia).
    destruct fuel as [|fuel]; [lia|].
    destruct (serialised_cons _ _ _ Hser) as [r1 [E1 Hser1]].
    destruct (serialised_cons _ _ _ Hser1) as [r2 [E2 Hser2]].
    rewrite E1. simpl ingest_loop. rewrite E2.
    apply (IH toks r2); [simpl in Hlen; lia|assumption|lia].
Qed.

(** An empty or whitespace-only text gives the empty sequence. *)
Lemma ingest_whitespace_only (input : istream) :
  forallb isspace input = true -> ingest_dvecs num_get input = Some (inr []).
Proof.
  intros Hws. unfold ingest_dvecs.
  now rewrite (extract_double_ws input Hws).
Qed.

(** C1: a text that serialises [2N] numbers as whitespace-separated tokens
    is ingested without error into exactly [N] vectors, the [k]-th made of
    tokens [2k] and [2k+1]. *)
Theorem ingest_round_trip (N : nat) (toks : list float) (input : istream) :
  length toks = (2 * N)%nat -> serialised num_get toks input ->
  exists vecs,
    ingest_dvecs num_get input = Some (inr vecs) /\
    length vecs = N /\
    forall k, (k < N)%nat ->
      nth k vecs (0, 0) = (nth (2 * k) toks 0, nth (2 * k + 1) toks 0).
Proof.
  intros Hlen Hser. unfold ingest_dvecs.
  pose proof (serialised_length _ _ Hser) as Hle.
  apply (ingest_loop_even N toks input [] (S (length input))); trivial. lia.
Qed.

(** Ingestion always returns when [num_get] consumes what it reads. *)
Lemma ingest_loop_returns (fuel : nat) :
  (forall s v r, num_get s = Some (v, r) -> (length r < length s)%nat) ->
  forall instream out,
    (match instream with
     | None => 0
     | Some (_, s) => S (length s)
     end < fuel)%nat ->
    ingest_loop num_get fuel instream out <> None.
Proof.
  intros Hconsume.
  assert (Hskip : forall s, (length (skipws s) <= length s)%nat).
  { induction s as [|c s IHs]; simpl; [lia|]. destruct (isspace c); simpl; lia. }
  assert (Hext : forall s v r, extract_double num_get s = Some (v, r) ->
                               (length r < length s)%nat).
  { intros s v r. unfold extract_double. specialize (Hskip s).
    destruct (skipws s) eqn:E; [discriminate|]. intros Hn.
    apply Hconsume in Hn. lia. }
  induction fuel as [|fuel IH]; intros instream out Hfuel; [lia|].
  simpl. destruct instream as [[x input]|]; [|discriminate].
  destruct (extract_double num_get input) as [[y input']|] eqn:E1; [|discriminate].
  apply Hext in E1. apply IH.
  destruct (extract_double num_get input') as [[z input'']|] eqn:E2.
  - apply Hext in E2. lia.
  - lia.
Qed.

(** X2: ingestion returns on every text, with vectors or with the
    mismatch error, as soon as every successful conversion of [num_get]
    consumes at least one character: the loop cannot run forever. *)
Lemma ingest_dvecs_returns (input : istream) :
  (forall s v r, num_get s = Some (v, r) -> (length r < length s)%nat) ->
  ingest_dvecs num_get input <> None.
Proof.
  intros Hconsume. unfold ingest_dvecs.
  apply ingest_loop_returns; [assumption|].
  destruct (extract_double num_get input) as [[x s]|] eqn:E; [|lia].
  unfold extract_double in E.
  assert (Hskip : forall s, (length (skipws s) <= length s)%nat).
  { induction s0 as [|c s0 IHs]; simpl; [lia|]. destruct (isspace c); simpl; lia. }
  specialize (Hskip input). destruct (skipws input) eqn:E'; [discriminate|].
  apply Hconsume in E. lia.
Qed.

End IngestFacts.

(** ** The driver *)

Section DriverFacts.

Variable acos : float -> float.
Variable num_get : istream -> option (float * istream).
Variable fmt_g fmt_f : float -> string.

(** C4: a text that ends after an odd number of numeric tokens makes
    [ingest_dvecs] throw [runtime_error("mismatched vector elements")];
    the vectors read so far are lost with it, and a run of the program on
    such a file prints nothing. *)
Theorem ingest_odd_tokens_throws (N : nat) (toks : list float) (input : istream) :
  length toks = (2 * N + 1)%nat -> serialised num_get toks input ->
  ingest_dvecs num_get input
    = Some (inl (runtime_error "mismatched vector elements")) /\
  main_with_file acos num_get fmt_g fmt_f (Some input)
    = Some (mkOutcome EmptyString
              (Uncaught (runtime_error "mismatched vector elements"))).
Proof.
  intros Hlen Hser.
  assert (Hthrow : ingest_dvecs num_get input
                   = Some (inl (runtime_error "mismatched vector elements"))).
  { unfold ingest_dvecs. pose proof (serialised_length _ _ _ Hser) as Hle.
    apply (ingest_loop_odd num_get N toks); trivial. lia. }
  split; [exact Hthrow|]. unfold main_with_file. now rewrite Hthrow.
Qed.

(** C8: without argument the program reads [test.txt], with one argument
    it reads the file the argument names; when that file cannot be opened
    the run ends on the uncaught [runtime_error("no input file")], with a
    non-zero status and nothing printed. *)
Theorem main_file_handling (prog arg : string) (open : string -> option istream) :
  main acos num_get fmt_g fmt_f [prog] open
    = main_with_file acos num_get fmt_g fmt_f (open "test.txt"%string) /\
  main acos num_get fmt_g fmt_f [prog; arg] open
    = main_with_file acos num_get fmt_g fmt_f (open arg) /\
  (open "test.txt"%string = None ->
   main acos num_get fmt_g fmt_f [prog] open
     = Some (mkOutcome EmptyString (Uncaught (runtime_error "no input file")))) /\
  (open arg = None ->
   main acos num_get fmt_g fmt_f [prog; arg] open
     = Some (mkOutcome EmptyString (Uncaught (runtime_error "no input file")))) /\
  exit_status (Uncaught (runtime_error "no input file")) <> 0%Z.
Proof.
  split; [reflexivity|]. split; [reflexivity|]. split; [|split].
  - intros Hopen. unfold main. simpl. unfold DEFAULT_FNAME. now rewrite Hopen.
  - intros Hopen. unfold main. simpl. now rewrite Hopen.
  - discriminate.
Qed.

(** C9: with more than one argument the program ignores them all and reads
    [test.txt], exactly as a run without argument does. *)
Theorem main_ignores_extra_arguments (argv : list string)
  (open : string -> option istream) :
  (2 < length argv)%nat ->
  main acos num_get fmt_g fmt_f argv open
    = main_with_file acos num_get fmt_g fmt_f (open "test.txt"%string) /\
  main acos num_get fmt_g fmt_f argv open
    = main acos num_get fmt_g fmt_f [nth 0 argv EmptyString] open.
Proof.
  intros Hargc. unfold main.
  destruct (Nat.eqb_spec (length argv) 2) as [E|_]; [lia|].
  split; reflexivity.
Qed.

End DriverFacts.

(** ** The model run on the inputs of the test suite *)

Section Runs.

Lemma isspace_not_digit (c : ascii) : isspace c = true -> is_digit c = false.
Proof.
  unfold isspace, is_digit. generalize (nat_of_ascii c). intros n H.
  apply orb_prop in H. apply andb_false_iff.
  destruct H as [H|H].
  - apply Nat.eqb_eq in H. left. apply Nat.leb_gt. lia.
  - apply andb_prop in H. destruct H as [_ H]. apply Nat.leb_le in H.
    left. apply Nat.leb_gt. lia.
Qed.

(** A single decimal digit is a token of [num_get_ref]; its value is the
    digit. *)
Lemma single_digit_token (c : ascii) :
  is_digit c = true ->
  numeric_token num_get_ref [c]
    (float_of_Z (Z.of_nat (nat_of_ascii c) - 48) / float_of_Z 1).
Proof.
  intros Hd. split; [discriminate|]. split.
  - simpl. rewrite andb_true_r. apply negb_true_iff.
    destruct (isspace c) eqn:E; [|reflexivity].
    apply isspace_not_digit in E. congruence.
  - intros rest Hrest.
    assert (Hread : read_digits ([c] ++ rest) 0 0
                    = ((Z.of_nat (nat_of_ascii c) - 48)%Z, 1%nat, rest)).
    { simpl. rewrite Hd. destruct rest as [|c' r]; [reflexivity|].
      simpl in Hrest. simpl. now rewrite (isspace_not_digit c' Hrest). }
    assert (Hdot : match rest with
                   | "."%char :: _ => False
                   | _ => True
                   end).
    { destruct rest as [|c' r]; [exact I|]. simpl in Hrest.
      destruct c' as [[] [] [] [] [] [] [] []]; try exact I; discriminate. }
    unfold num_get_ref. cbn [app] in *.
    destruct c as [[] [] [] [] [] [] [] []]; try discriminate Hd;
      cbv iota beta; rewrite Hread;
      destruct rest as [|[[] [] [] [] [] [] [] []] r];
      try contradiction; reflexivity.
Qed.

(** Peels one token, with the whitespace before it if any, off a goal
    [serialised num_get_ref toks text] whose tokens are single digits. *)
Ltac serialised_step :=
  lazymatch goal with
  | |- serialised _ [] _ => apply serialised_end; reflexivity
  | |- serialised _ (_ :: _) (?c :: ?rest) =>
    first
      [ refine (serialised_token num_get_ref [] [c] _ _ rest eq_refl
                  (single_digit_token c eq_refl) _ _);
        [first [exact I | reflexivity]|]
      | lazymatch rest with
        | ?d :: ?rest' =>
          refine (serialised_token num_get_ref [c] [d] _ _ rest' eq_refl
                    (single_digit_token d eq_refl) _ _);
          [first [exact I | reflexivity]|]
        end ]
  end.

Lemma test_input_serialised :
  serialised num_get_ref [1; 1; 1; 2; 1; 3; 1; 4; 1; 5] test_input.
Proof.
  cbv [test_input newline list_ascii_of_string app].
  repeat serialised_step.
Qed.

Lemma truncated_input_serialised :
  serialised num_get_ref [1; 1; 1; 2; 1] truncated_input.
Proof.
  cbv [truncated_input newline list_ascii_of_string app].
  repeat serialised_step.
Qed.

(** Test case [ingest_dvecs]. *)
Example ingest_test_input :
  ingest_dvecs num_get_ref test_input = Some (inr test_vecs).
Proof.
  vm_compute. reflexivity.
Qed.

(** Test case [pairwise_elts]: ten pairs, none made of equal vectors. *)
Example pairwise_test_vecs :
  length (pairwise_elts test_vecs) = 10%nat /\
  forallb (fun p => negb (dvec2_eqb (fst p) (snd p))) (pairwise_elts test_vecs) = true.
Proof.
  split; vm_compute; reflexivity.
Qed.

(** Test case [theta]: the angles of the ten pairs, to five decimals. *)
Example theta_test_vecs :
  forallb (fun pe => abs (theta_of acos_ref (fst pe) - snd pe) <? 0.00001)
          (combine (pairwise_elts test_vecs) test_angles) = true.
Proof.
  vm_compute. reflexivity.
Qed.

Lemma one_vector_input_serialised :
  serialised num_get_ref [1; 1] one_vector_input.
Proof.
  cbv [one_vector_input list_ascii_of_string].
  repeat serialised_step.
Qed.

Lemma junk_input_yields : yields num_get_ref [1; 2] junk_input.
Proof.
  apply yields_next with (list_ascii_of_string " 2 x 3"); [reflexivity|].
  apply yields_next with (list_ascii_of_string " x 3"); [reflexivity|].
  apply yields_stop. reflexivity.
Qed.

End Runs.

(** ** Further properties of the code *)

Section Order.

Lemma SFcompare_key (a b : spec_float) :
  a <> S754_nan -> b <> S754_nan ->
  (SFcompare a b = Some Lt <-> key_lt (SFkey a) (SFkey b)) /\
  (SFcompare a b = Some Eq <-> SFkey a = SFkey b) /\
  (SFcompare a b = Some Gt <-> key_lt (SFkey b) (SFkey a)).
Proof.
  intros Ha Hb. unfold key_lt.
  destruct a as [sa|sa| |sa ma ea], b as [sb|sb| |sb mb eb]; try congruence;
    try (destruct sa); try (destruct sb); cbn [SFcompare SFkey fst snd];
    try (repeat split; intros H; try discriminate; try reflexivity; try lia;
         try (inversion H; lia); fail).
  - (* both negative *)
    destruct (Z.compare_spec ea eb) as [E|E|E];
      change (Pos.compare_cont Eq ma mb) with (Pos.compare ma mb);
      try (repeat split; intros H; try discriminate; try reflexivity; try lia;
           try (inversion H; lia); fail).
    destruct (Pos.compare_spec ma mb) as [M|M|M]; cbn [CompOpp];
      repeat split; intros H; try discriminate; try reflexivity; try lia;
      try (inversion H; lia); try (subst; reflexivity).
  - destruct (Z.compare_spec ea eb) as [E|E|E];
      change (Pos.compare_cont Eq ma mb) with (Pos.compare ma mb);
      try (repeat split; intros H; try discriminate; try reflexivity; try lia;
           try (inversion H; lia); fail).
    destruct (Pos.compare_spec ma mb) as [M|M|M];
      repeat split; intros H; try discriminate; try reflexivity; try lia;
      try (inversion H; lia); try (subst; reflexivity).
Qed.


Lemma is_nan_false_spec (x : float) : is_nan x = false <-> Prim2SF x <> S754_nan.
Proof.
  split.
  - intros H E. unfold is_nan in H. rewrite eqb_spec, E in H. discriminate.
  - intros H. destruct (is_nan x) eqn:E; [|reflexivity].
    apply is_nan_true_spec in E. contradiction.
Qed.

(** [<] read on ranks. *)
Lemma float_ltb_key (x y : float) :
  (x <? y) = true <->
  is_nan x = false /\ is_nan y = false /\ key_lt (SFkey (Prim2SF x)) (SFkey (Prim2SF y)).
Proof.
  rewrite ltb_spec, !is_nan_false_spec. unfold SFltb. split.
  - intros H.
    assert (Hx : Prim2SF x <> S754_nan).
    { intros E. rewrite E in H. discriminate. }
    assert (Hy : Prim2SF y <> S754_nan).
    { intros E. rewrite E in H. destruct (Prim2SF x); discriminate. }
    repeat split; trivial. apply (SFcompare_key _ _ Hx Hy).
    destruct (SFcompare (Prim2SF x) (Prim2SF y)) as [[]|]; congruence.
  - intros [Hx [Hy Hk]]. apply (SFcompare_key _ _ Hx Hy) in Hk. now rewrite Hk.
Qed.

(** [<=] read on ranks. *)
Lemma float_leb_key (x y : float) :
  (x <=? y) = true <->
  is_nan x = false /\ is_nan y = false /\
  (key_lt (SFkey (Prim2SF x)) (SFkey (Prim2SF y)) \/
   SFkey (Prim2SF x) = SFkey (Prim2SF y)).
Proof.
  rewrite leb_spec, !is_nan_false_spec. unfold SFleb. split.
  - intros H.
    assert (Hx : Prim2SF x <> S754_nan).
    { intros E. rewrite E in H. discriminate. }
    assert (Hy : Prim2SF y <> S754_nan).
    { intros E. rewrite E in H. destruct (Prim2SF x); discriminate. }
    repeat split; trivial.
    destruct (SFcompare_key _ _ Hx Hy) as [Hlt [Heq _]].
    destruct (SFcompare (Prim2SF x) (Prim2SF y)) as [[]|]; try discriminate.
    + right. now apply Heq.
    + left. now apply Hlt.
  - intros [Hx [Hy [Hk|Hk]]].
    + apply (SFcompare_key _ _ Hx Hy) in Hk. now rewrite Hk.
    + apply (SFcompare_key _ _ Hx Hy) in Hk. now rewrite Hk.
Qed.

Lemma key_lt_trans (a b c : Z * (Z * Z)) : key_lt a b -> key_lt b c -> key_lt a c.
Proof.
  unfold key_lt. lia.
Qed.

Lemma key_lt_irrefl (a : Z * (Z * Z)) : ~ key_lt a a.
Proof.
  unfold key_lt. lia.
Qed.

Lemma key_total (a b : Z * (Z * Z)) : key_lt a b \/ a = b \/ key_lt b a.
Proof.
  unfold key_lt. destruct a as [a1 [a2 a3]], b as [b1 [b2 b3]]. simpl.
  destruct (Z.lt_total a1 b1) as [H|[H|H]]; [lia| |lia].
  destruct (Z.lt_total a2 b2) as [H2|[H2|H2]]; [lia| |lia].
  destruct (Z.lt_total a3 b3) as [H3|[H3|H3]]; [lia| |lia].
  subst. right. left. reflexivity.
Qed.

Lemma float_ltb_irrefl (x : float) : (x <? x) = false.
Proof.
  destruct (x <? x) eqn:E; [|reflexivity].
  apply float_ltb_key in E. destruct E as [_ [_ E]]. now apply key_lt_irrefl in E.
Qed.

Lemma float_ltb_trans (x y z : float) :
  (x <? y) = true -> (y <? z) = true -> (x <? z) = true.
Proof.
  rewrite !float_ltb_key. intros [Hx [Hy Hxy]] [_ [Hz Hyz]].
  repeat split; trivial. exact (key_lt_trans _ _ _ Hxy Hyz).
Qed.

Lemma float_ltb_asym (x y : float) : (x <? y) = true -> (y <? x) = false.
Proof.
  intros Hxy. destruct (y <? x) eqn:Hyx; [|reflexivity].
  pose proof (float_ltb_trans _ _ _ Hxy Hyx) as H.
  now rewrite float_ltb_irrefl in H.
Qed.

Lemma float_leb_trans (x y z : float) :
  (x <=? y) = true -> (y <=? z) = true -> (x <=? z) = true.
Proof.
  rewrite !float_leb_key. intros [Hx [Hy Hxy]] [_ [Hz Hyz]].
  repeat split; trivial.
  destruct Hxy as [Hxy|Hxy], Hyz as [Hyz|Hyz].
  - left. exact (key_lt_trans _ _ _ Hxy Hyz).
  - left. now rewrite <- Hyz.
  - left. now rewrite Hxy.
  - right. congruence.
Qed.

(** Two numbers neither of which is below the other have the same rank. *)
Lemma float_incomparable_key (x y : float) :
  is_nan x = false -> is_nan y = false ->
  ((x <? y) = false /\ (y <? x) = false <->
   SFkey (Prim2SF x) = SFkey (Prim2SF y)).
Proof.
  intros Hx Hy. split.
  - intros [Hxy Hyx].
    destruct (key_total (SFkey (Prim2SF x)) (SFkey (Prim2SF y))) as [H|[H|H]].
    + assert (E : (x <? y) = true) by (apply float_ltb_key; auto). congruence.
    + assumption.
    + assert (E : (y <? x) = true) by (apply float_ltb_key; auto). congruence.
  - intros E. split.
    + destruct (x <? y) eqn:H; [|reflexivity]. apply float_ltb_key in H.
      destruct H as [_ [_ H]]. rewrite E in H. now apply key_lt_irrefl in H.
    + destruct (y <? x) eqn:H; [|reflexivity]. apply float_ltb_key in H.
      destruct H as [_ [_ H]]. rewrite E in H. now apply key_lt_irrefl in H.
Qed.

End Order.

Section ThetaSortOrder.

Variable acos : float -> float.

Lemma StronglySorted_nth_error {A : Type} (R : A -> A -> Prop) (l : list A) :
  StronglySorted R l ->
  forall i j p q, (i < j)%nat ->
    nth_error l i = Some p -> nth_error l j = Some q -> R p q.
Proof.
  induction 1 as [|x l Hl IH Hall]; intros i j p q Hij Hp Hq.
  - destruct i; discriminate.
  - destruct j as [|j]; [lia|]. simpl in Hq. destruct i as [|i]; simpl in Hp.
    + inversion Hp; subst. rewrite Forall_forall in Hall.
      apply Hall. eapply nth_error_In. exact Hq.
    + apply (IH i j); trivial. lia.
Qed.

(** X7: the comparator of [theta_sort] is irreflexive, asymmetric and
    transitive on all pairs, and a strict weak order on the pairs whose
    angle is a number. *)
Theorem theta_less_strict_weak_order :
  (forall x, theta_less acos x x = false) /\
  (forall x y, theta_less acos x y = true -> theta_less acos y x = false) /\
  (forall x y z, theta_less acos x y = true -> theta_less acos y z = true ->
                 theta_less acos x z = true) /\
  strict_weak_order (theta_less acos) (fun p => is_nan (theta_of acos p) = false).
Proof.
  split; [|split; [|split]].
  - intros x. apply float_ltb_irrefl.
  - intros x y. apply float_ltb_asym.
  - intros x y z. apply float_ltb_trans.
  - split; [|split].
    + intros x _. apply float_ltb_irrefl.
    + intros x y z _ _ _. apply float_ltb_trans.
    + intros x y z Hx Hy Hz Hxy Hyz. unfold theta_less, theta_of in *.
      apply (float_incomparable_key _ _ Hx Hy) in Hxy.
      apply (float_incomparable_key _ _ Hy Hz) in Hyz.
      apply (float_incomparable_key _ _ Hx Hz). congruence.
Qed.

(** X6: when no pair of the input has a NaN angle, the output of
    [theta_sort] is ordered throughout: each entry's angle is at most the
    angle of every later entry, not only of the next. *)
Theorem theta_sort_ordered (vecs : list dvec2) :
  (forall p, In p (pairwise_elts vecs) -> is_nan (theta_of acos p) = false) ->
  angle_ordered acos (theta_sort acos vecs).
Proof.
  intros Hnum. unfold angle_ordered.
  apply (StronglySorted_nth_error
           (fun p q => (theta_of acos p <=? theta_of acos q) = true)).
  apply Sorted_StronglySorted.
  - intros x y z. apply float_leb_trans.
  - now apply theta_sort_sorted.
Qed.

End ThetaSortOrder.

Section ZeroVector.

Variable acos : float -> float.

Lemma eqb_zero_spec (x : float) :
  (x =? 0) = true -> exists s, Prim2SF x = S754_zero s.
Proof.
  rewrite eqb_spec. change (Prim2SF 0) with (S754_zero false). unfold SFeqb.
  destruct (Prim2SF x) as [s|s| |s m e]; simpl; try discriminate.
  - intros _. now exists s.
  - destruct s; discriminate.
  - destruct s; discriminate.
Qed.

Lemma zero_or_nan_mul_l (x y : float) : zero_or_nan x -> zero_or_nan (x * y).
Proof.
  unfold zero_or_nan. rewrite mul_spec. unfold SF64mul, SFmul.
  intros [Hx|[s Hx]]; rewrite Hx.
  - now left.
  - destruct (Prim2SF y) as [sy|sy| |sy my ey]; eauto.
Qed.

Lemma zero_or_nan_mul_r (x y : float) : zero_or_nan y -> zero_or_nan (x * y).
Proof.
  rewrite float_mul_comm. apply zero_or_nan_mul_l.
Qed.

Lemma zero_or_nan_add (x y : float) :
  zero_or_nan x -> zero_or_nan y -> zero_or_nan (x + y).
Proof.
  unfold zero_or_nan. rewrite add_spec. unfold SF64add, SFadd.
  intros [Hx|[sx Hx]] [Hy|[sy Hy]]; rewrite Hx, ?Hy; try (now left).
  right. destruct sx, sy; eauto.
Qed.

Lemma zero_or_nan_sqrt (x : float) : zero_or_nan x -> zero_or_nan (sqrt x).
Proof.
  unfold zero_or_nan. rewrite sqrt_spec. unfold SF64sqrt, SFsqrt.
  intros [Hx|[s Hx]]; rewrite Hx; eauto.
Qed.

Lemma zero_or_nan_div (x y : float) :
  zero_or_nan x -> zero_or_nan y -> x / y = nan.
Proof.
  unfold zero_or_nan. intros Hx Hy. apply Prim2SF_inj.
  rewrite div_spec. change (Prim2SF nan) with S754_nan. unfold SF64div, SFdiv.
  destruct Hx as [Hx|[sx Hx]], Hy as [Hy|[sy Hy]]; rewrite Hx, ?Hy; reflexivity.
Qed.

Lemma dvec2_zero_spec (a : dvec2) :
  dvec2_eqb a (0, 0) = true -> zero_or_nan (fst a) /\ zero_or_nan (snd a).
Proof.
  unfold dvec2_eqb. simpl. intros H. apply andb_prop in H. destruct H as [H1 H2].
  split; right; now apply eqb_zero_spec.
Qed.

Lemma norm_zero (a : dvec2) : dvec2_eqb a (0, 0) = true -> zero_or_nan (norm a).
Proof.
  intros H. destruct (dvec2_zero_spec a H) as [H1 H2].
  unfold norm, dot. apply zero_or_nan_sqrt.
  apply zero_or_nan_add; now apply zero_or_nan_mul_l.
Qed.

(** The angle with a zero vector on the left. *)
Lemma theta_zero_l (a b : dvec2) :
  dvec2_eqb a (0, 0) = true -> theta acos a b = acos nan.
Proof.
  intros H. unfold theta. f_equal. apply zero_or_nan_div.
  - destruct (dvec2_zero_spec a H) as [H1 H2]. unfold dot.
    apply zero_or_nan_add; now apply zero_or_nan_mul_l.
  - apply zero_or_nan_mul_l. now apply norm_zero.
Qed.

Lemma theta_zero_r (a b : dvec2) :
  dvec2_eqb b (0, 0) = true -> theta acos a b = acos nan.
Proof.
  intros H. unfold theta. f_equal. apply zero_or_nan_div.
  - destruct (dvec2_zero_spec b H) as [H1 H2]. unfold dot.
    apply zero_or_nan_add; now apply zero_or_nan_mul_r.
  - apply zero_or_nan_mul_r. now apply norm_zero.
Qed.

(** X9: the angle between a zero vector (of either sign of zero) and any
    other vector, NaN and infinite components included, is [acos] of NaN:
    the quotient under [acos] is one zero, or NaN, over another. *)
Theorem theta_zero_vector (a b : dvec2) :
  dvec2_eqb a (0, 0) = true \/ dvec2_eqb b (0, 0) = true ->
  theta acos a b = acos nan.
Proof.
  intros [H|H]; [now apply theta_zero_l|now apply theta_zero_r].
Qed.

End ZeroVector.

Section Equality.

Lemma float_eqb_key (x y : float) :
  (x =? y) = true <->
  is_nan x = false /\ is_nan y = false /\ SFkey (Prim2SF x) = SFkey (Prim2SF y).
Proof.
  rewrite eqb_spec, !is_nan_false_spec. unfold SFeqb. split.
  - intros H.
    assert (Hx : Prim2SF x <> S754_nan).
    { intros E. rewrite E in H. discriminate. }
    assert (Hy : Prim2SF y <> S754_nan).
    { intros E. rewrite E in H. destruct (Prim2SF x); discriminate. }
    repeat split; trivial. apply (SFcompare_key _ _ Hx Hy).
    destruct (SFcompare (Prim2SF x) (Prim2SF y)) as [[]|]; congruence.
  - intros [Hx [Hy Hk]]. apply (SFcompare_key _ _ Hx Hy) in Hk. now rewrite Hk.
Qed.

Lemma float_eqb_sym (x y : float) : (x =? y) = (y =? x).
Proof.
  destruct (x =? y) eqn:E1, (y =? x) eqn:E2; trivial.
  - apply float_eqb_key in E1. destruct E1 as [Hx [Hy Hk]].
    assert (E : (y =? x) = true) by (apply float_eqb_key; auto). congruence.
  - apply float_eqb_key in E2. destruct E2 as [Hx [Hy Hk]].
    assert (E : (x =? y) = true) by (apply float_eqb_key; auto). congruence.
Qed.

Lemma float_eqb_trans (x y z : float) :
  (x =? y) = true -> (y =? z) = true -> (x =? z) = true.
Proof.
  rewrite !float_eqb_key. intros [Hx [Hy Hxy]] [_ [Hz Hyz]].
  repeat split; trivial. congruence.
Qed.

(** X11: [operator==] on vectors is symmetric and transitive; a vector equals
    itself exactly when neither component is NaN; and the two signs of zero
    are equal. *)
Theorem dvec2_eqb_partial_equivalence :
  (forall a b, dvec2_eqb a b = dvec2_eqb b a) /\
  (forall a b c, dvec2_eqb a b = true -> dvec2_eqb b c = true ->
                 dvec2_eqb a c = true) /\
  (forall a, dvec2_eqb a a = true <->
             is_nan (fst a) = false /\ is_nan (snd a) = false) /\
  dvec2_eqb (0, 0) (-0, -0) = true.
Proof.
  unfold dvec2_eqb. split; [|split; [|split]].
  - intros a b. now rewrite (float_eqb_sym (fst a)), (float_eqb_sym (snd a)).
  - intros a b c Hab Hbc. apply andb_prop in Hab, Hbc.
    destruct Hab as [H1 H2], Hbc as [H3 H4]. apply andb_true_intro. split.
    + exact (float_eqb_trans _ _ _ H1 H3).
    + exact (float_eqb_trans _ _ _ H2 H4).
  - intros a. rewrite andb_true_iff, !float_eqb_key. tauto.
  - reflexivity.
Qed.

End Equality.

Section Norm.

Lemma binary_round_aux_not_negative (m e : Z) (l : location) (s : bool) :
  SFltb (binary_round_aux prec emax false m e l) (S754_zero s) = false.
Proof.
  unfold binary_round_aux.
  destruct (shr_fexp prec emax m e l) as [mrs' e'].
  destruct (shr_fexp prec emax _ e' loc_Exact) as [mrs'' e''].
  destruct (shr_m mrs''); [reflexivity| |reflexivity].
  destruct (Z.leb e'' (emax - prec)); reflexivity.
Qed.

(** X12: the norm of a vector is never below zero: it is NaN, a zero, a
    positive number or [+infinity]. *)
Theorem norm_not_negative (v : dvec2) : (norm v <? 0) = false.
Proof.
  unfold norm. rewrite ltb_spec, sqrt_spec. change (Prim2SF 0) with (S754_zero false).
  unfold SF64sqrt, SFsqrt.
  destruct (Prim2SF (dot v v)) as [s|s| |s m e]; try reflexivity.
  - destruct s; reflexivity.
  - destruct s; [reflexivity|].
    destruct (SFsqrt_core_binary prec emax (Z.pos m) e) as [[mz ez] lz].
    apply binary_round_aux_not_negative.
Qed.

End Norm.

Section IngestMore.

Variable num_get : istream -> option (float * istream).

Lemma skipws_length (s : istream) : (length (skipws s) <= length s)%nat.
Proof.
  induction s as [|c s IH]; simpl; [lia|]. destruct (isspace c); simpl; lia.
Qed.

Lemma extract_double_consumes (s : istream) (v : float) (r : istream) :
  consumes num_get -> extract_double num_get s = Some (v, r) ->
  (length r < length s)%nat.
Proof.
  intros Hc. unfold extract_double. pose proof (skipws_length s) as Hs.
  destruct (skipws s) eqn:E; [discriminate|]. intros H. apply Hc in H. lia.
Qed.

Lemma yields_length (toks : list float) (input : istream) :
  consumes num_get -> yields num_get toks input ->
  (length toks <= length input)%nat.
Proof.
  intros Hc. induction 1 as [input H|v vs input rest H Hy IH]; simpl; [lia|].
  apply (extract_double_consumes _ _ _ Hc) in H. lia.
Qed.

(** Every text yields some sequence of numbers. *)
Lemma yields_exists (input : istream) :
  consumes num_get -> exists toks, yields num_get toks input.
Proof.
  intros Hc. remember (length input) as n eqn:Hn. revert input Hn.
  induction n as [n IH] using lt_wf_ind. intros input Hn.
  destruct (extract_double num_get input) as [[v rest]|] eqn:E.
  - pose proof (extract_double_consumes _ _ _ Hc E) as Hlt.
    destruct (IH (length rest)) with (input := rest) as [toks Hy]; [lia|reflexivity|].
    exists (v :: toks). now apply yields_next with rest.
  - exists []. now constructor.
Qed.

Lemma serialised_yields (toks : list float) (input : istream) :
  serialised num_get toks input -> yields num_get toks input.
Proof.
  induction 1 as [ws Hws|ws t v vs rest Hws Htok Hrest Hser IH].
  - constructor. now apply extract_double_ws.
  - apply yields_next with rest; [|assumption]. now apply extract_double_token.
Qed.

(** The loop, by the parity of the numbers the text yields. *)
Lemma ingest_loop_parity (fuel : nat) :
  forall toks input out,
    yields num_get toks input -> (length toks < 2 * fuel)%nat ->
    ingest_loop num_get fuel (extract_double num_get input) out
    = Some (if Nat.even (length toks)
            then inr (out ++ pair_up toks)
            else inl (runtime_error "mismatched vector elements")).
Proof.
  induction fuel as [|fuel IH]; intros toks input out Hy Hfuel; [lia|].
  inversion Hy as [input' E|x vs input' r1 E1 Hy1]; subst.
  - rewrite E. simpl. now rewrite app_nil_r.
  - rewrite E1. simpl ingest_loop.
    inversion Hy1 as [input' E|y vs' input' r2 E2 Hy2]; subst.
    + now rewrite E.
    + rewrite E2. rewrite (IH vs' r2); [|assumption|simpl in Hfuel; lia].
      change (length (x :: y :: vs')) with (S (S (length vs'))).
      rewrite Nat.even_succ_succ. simpl pair_up. now rewrite <- app_assoc.
Qed.

(** X1: ingestion stops at the first extraction that fails, whatever makes
    it fail: if the text yields an even number of numbers before that, they
    are returned two by two and the rest of the text is ignored; if it
    yields an odd number, [runtime_error("mismatched vector elements")] is
    thrown. *)
Theorem ingest_by_parity (toks : list float) (input : istream) :
  consumes num_get -> yields num_get toks input ->
  ingest_dvecs num_get input
  = Some (if Nat.even (length toks)
          then inr (pair_up toks)
          else inl (runtime_error "mismatched vector elements")).
Proof.
  intros Hc Hy. unfold ingest_dvecs.
  pose proof (yields_length _ _ Hc Hy) as Hlen.
  rewrite (ingest_loop_parity (S (length input)) toks input [] Hy); [reflexivity|lia].
Qed.


(** The loop throws nothing but the mismatch error. *)
Lemma ingest_loop_error (fuel : nat) :
  forall instream out e,
    ingest_loop num_get fuel instream out = Some (inl e) ->
    e = runtime_error "mismatched vector elements".
Proof.
  induction fuel as [|fuel IH]; intros instream out e H; [discriminate|].
  simpl in H. destruct instream as [[x input]|]; [|discriminate].
  destruct (extract_double num_get input) as [[y input']|].
  - now apply IH in H.
  - now inversion H.
Qed.

End IngestMore.

Section PairwiseMore.

(** X3: no emitted pair has two members that compare equal exactly when no
    two vectors at distinct positions of the input compare equal (what the
    test of [pairwise_elts] checks on its input). *)
Theorem pairwise_elts_distinct (vecs : list dvec2) :
  (forall p, In p (pairwise_elts vecs) -> dvec2_eqb (fst p) (snd p) = false) <->
  (forall i j, (i < j < length vecs)%nat ->
     dvec2_eqb (nth i vecs (0, 0)) (nth j vecs (0, 0)) = false).
Proof.
  rewrite pairwise_elts_lex. split.
  - intros H i j Hij.
    apply (H (at_positions vecs (i, j))).
    apply in_map. now apply in_lex_pairs.
  - intros H p Hp. apply in_map_iff in Hp. destruct Hp as [[i j] [Heq Hin]].
    subst p. apply in_lex_pairs in Hin. now apply H.
Qed.

(** X4: the enumeration is empty exactly on inputs of fewer than two
    vectors. *)
Theorem pairwise_elts_nil_iff (vecs : list dvec2) :
  pairwise_elts vecs = [] <-> (length vecs <= 1)%nat.
Proof.
  split.
  - destruct vecs as [|v [|w rest]]; simpl; try lia. discriminate.
  - destruct vecs as [|v [|w rest]]; simpl; try reflexivity. lia.
Qed.

End PairwiseMore.

Section ThetaSortMore.

Variable acos : float -> float.

(** X5: [theta_sort] on [n] vectors returns [n(n-1)/2] pairs, and a pair is
    in its output exactly when it is [(vecs[i], vecs[j])] for some
    [i < j < n]: sorting keeps each pair as it was formed, members
    unswapped. *)
Theorem theta_sort_members (vecs : list dvec2) :
  length (theta_sort acos vecs) = (length vecs * (length vecs - 1) / 2)%nat /\
  forall p, In p (theta_sort acos vecs) <->
            exists i j, (i < j < length vecs)%nat /\ p = at_positions vecs (i, j).
Proof.
  assert (Hperm : Permutation (theta_sort acos vecs) (pairwise_elts vecs))
    by apply std_sort_perm.
  split.
  - rewrite (Permutation_length Hperm), pairwise_elts_lex, length_map.
    pose proof (lex_pairs_length (length vecs)) as H.
    apply Nat.div_unique_exact; lia.
  - intros p. split.
    + intros Hin. apply (Permutation_in _ Hperm) in Hin.
      rewrite pairwise_elts_lex in Hin. apply in_map_iff in Hin.
      destruct Hin as [[i j] [Heq Hin]]. exists i, j.
      split; [now apply in_lex_pairs|now symmetry].
    + intros [i [j [Hij Heq]]]. apply (Permutation_in _ (Permutation_sym Hperm)).
      rewrite pairwise_elts_lex. subst p. apply in_map. now apply in_lex_pairs.
Qed.

(** X10: with an [acos] that maps NaN to NaN, an input of three vectors or
    more that holds a zero vector never comes out in angle order. *)
Theorem zero_vector_breaks_order (vecs : list dvec2) (k : nat) :
  acos nan = nan -> (k < length vecs)%nat ->
  dvec2_eqb (nth k vecs (0, 0)) (0, 0) = true ->
  (3 <= length vecs)%nat ->
  ~ angle_nondecreasing acos (theta_sort acos vecs).
Proof.
  intros Hacos Hk Hzero Hlen.
  assert (Hperm : Permutation (theta_sort acos vecs) (pairwise_elts vecs))
    by apply std_sort_perm.
  assert (Hpair : exists i j, (i < j < length vecs)%nat /\
                    is_nan (theta_of acos (at_positions vecs (i, j))) = true).
  { destruct k as [|k].
    - exists 0%nat, 1%nat. split; [lia|]. unfold theta_of, at_positions. simpl fst.
      simpl snd. rewrite (theta_zero_l acos _ _ Hzero), Hacos. reflexivity.
    - exists 0%nat, (S k). split; [lia|]. unfold theta_of, at_positions. simpl fst.
      simpl snd. rewrite (theta_zero_r acos _ _ Hzero), Hacos. reflexivity. }
  destruct Hpair as [i [j [Hij Hnan]]].
  apply (nan_breaks_order acos (theta_sort acos vecs) (at_positions vecs (i, j))).
  - apply (Permutation_in _ (Permutation_sym Hperm)).
    rewrite pairwise_elts_lex. apply in_map. now apply in_lex_pairs.
  - exact Hnan.
  - rewrite (Permutation_length Hperm), pairwise_elts_lex, length_map.
    pose proof (lex_pairs_length (length vecs)) as H.
    destruct (length vecs) as [|[|[|n]]]; lia.
Qed.

End ThetaSortMore.

Section DriverMore.

Variable acos : float -> float.
Variable num_get : istream -> option (float * istream).
Variable fmt_g fmt_f : float -> string.


(** X14: a run that ends, ends in one of three ways: [main] returns 0, or
    one of the two [runtime_error]s leaves it; when an exception ends the
    run, nothing has been printed. *)
Theorem main_exception_no_output (argv : list string)
  (open : string -> option istream) (o : outcome) :
  main acos num_get fmt_g fmt_f argv open = Some o ->
  match ended o with
  | Returned status => status = 0%Z
  | Uncaught e =>
    stdout o = EmptyString /\
    (e = runtime_error "no input file" \/
     e = runtime_error "mismatched vector elements")
  end.
Proof.
  unfold main, main_with_file.
  destruct (open _) as [input|].
  - unfold ingest_dvecs.
    destruct (ingest_loop num_get (S (length input))
                (extract_double num_get input) []) as [[e|vecs]|] eqn:E;
      intros H; inversion H; subst; simpl.
    + split; [reflexivity|]. right. exact (ingest_loop_error _ _ _ _ _ E).
    + reflexivity.
  - intros H. inversion H; subst. simpl. split; [reflexivity|now left].
Qed.

(** X15: a file that holds no number, or the two numbers of a single vector,
    gives a run that prints nothing and returns 0. *)
Theorem main_few_vectors_print_nothing (toks : list float) (input : istream) :
  serialised num_get toks input ->
  length toks = 0%nat \/ length toks = 2%nat ->
  main_with_file acos num_get fmt_g fmt_f (Some input)
    = Some (mkOutcome EmptyString (Returned 0)).
Proof.
  intros Hser Hlen. unfold main_with_file, ingest_dvecs.
  pose proof (serialised_length _ _ _ Hser) as Hle.
  destruct Hlen as [H0|H2].
  - destruct (ingest_loop_even num_get 0 toks input [] (S (length input)))
      as [vecs [Hrun [Hn _]]]; trivial; [lia|].
    rewrite Hrun. destruct vecs; [reflexivity|discriminate].
  - destruct (ingest_loop_even num_get 1 toks input [] (S (length input)))
      as [vecs [Hrun [Hn _]]]; trivial; [lia|].
    rewrite Hrun. destruct vecs as [|v [|w vecs]]; try discriminate. reflexivity.
Qed.




End DriverMore.

Section ReferenceReader.

Lemma read_digits_length (s : istream) :
  forall acc count,
    (length (snd (read_digits s acc count)) + snd (fst (read_digits s acc count))
     = length s + count)%nat.
Proof.
  induction s as [|c s IH]; intros acc count; simpl; [reflexivity|].
  destruct (is_digit c); simpl; [|reflexivity]. rewrite IH. lia.
Qed.

Lemma num_get_ref_consumes : consumes num_get_ref.
Proof.
  intros s v r. unfold num_get_ref.
  set (signed := match s with
                 | "-"%char :: r0 => (true, r0)
                 | "+"%char :: r0 => (false, r0)
                 | _ => (false, s)
                 end).
  assert (Hs1 : (length (snd signed) <= length s)%nat).
  { subst signed. destruct s as [|[[] [] [] [] [] [] [] []] s']; simpl; lia. }
  destruct signed as [negative s1]. simpl in Hs1.
  pose proof (read_digits_length s1 0%Z 0%nat) as Hint.
  destruct (read_digits s1 0%Z 0%nat) as [[ip ni] s2]. simpl in Hint.
  set (frac := match s2 with
               | "."%char :: r0 => read_digits r0 ip 0%nat
               | _ => (ip, 0%nat, s2)
               end).
  assert (Hs3 : (length (snd frac) + snd (fst frac) <= length s2)%nat).
  { subst frac. destruct s2 as [|[[] [] [] [] [] [] [] []] s2']; simpl; try lia.
    pose proof (read_digits_length s2' ip 0%nat). lia. }
  destruct frac as [[m nf] s3]. simpl in Hs3.
  destruct (ni + nf =? 0)%nat eqn:E; [discriminate|].
  apply Nat.eqb_neq in E. intros H. inversion H; subst. lia.
Qed.

End ReferenceReader.

(** ** Instances of the theorems *)

Lemma test_vecs_angles_are_numbers (p : dvec2 * dvec2) :
  In p (pairwise_elts test_vecs) -> is_nan (theta_of acos_ref p) = false.
Proof.
  intros Hin. apply negb_true_iff. revert p Hin. apply forallb_forall.
  vm_compute. reflexivity.
Qed.

(** The test input holds [2 * 5] tokens and is ingested into five vectors. *)
Lemma ingest_round_trip_witness :
  serialised num_get_ref [1; 1; 1; 2; 1; 3; 1; 4; 1; 5] test_input /\
  exists vecs,
    ingest_dvecs num_get_ref test_input = Some (inr vecs) /\
    length vecs = 5%nat /\
    forall k, (k < 5)%nat ->
      nth k vecs (0, 0) = (nth (2 * k) [1; 1; 1; 2; 1; 3; 1; 4; 1; 5] 0,
                           nth (2 * k + 1) [1; 1; 1; 2; 1; 3; 1; 4; 1; 5] 0).
Proof.
  split.
  - exact test_input_serialised.
  - exact (ingest_round_trip num_get_ref 5 [1; 1; 1; 2; 1; 3; 1; 4; 1; 5] test_input
             eq_refl test_input_serialised).
Defined.

(** The angles of the test vectors are numbers, and come out in order. *)
Lemma theta_sort_nondecreasing_witness :
  angle_nondecreasing acos_ref (theta_sort acos_ref test_vecs).
Proof.
  exact (theta_sort_nondecreasing acos_ref test_vecs test_vecs_angles_are_numbers).
Defined.

(** Three zero vectors give three pairs of angle NaN, and [NaN <= NaN] is
    false: the output of [theta_sort] is not in angle order. *)
Lemma theta_sort_zero3_counterexample :
  ~ angle_nondecreasing acos_ref (theta_sort acos_ref zero3).
Proof.
  apply zero3_not_nondecreasing. reflexivity.
Qed.

(** Five tokens: the fifth has no partner, ingestion throws and the run
    prints nothing. *)
Lemma ingest_odd_tokens_throws_witness :
  serialised num_get_ref [1; 1; 1; 2; 1] truncated_input /\
  ingest_dvecs num_get_ref truncated_input
    = Some (inl (runtime_error "mismatched vector elements")) /\
  main_with_file acos_ref num_get_ref fmt_blank fmt_blank (Some truncated_input)
    = Some (mkOutcome EmptyString
              (Uncaught (runtime_error "mismatched vector elements"))).
Proof.
  split.
  - exact truncated_input_serialised.
  - exact (ingest_odd_tokens_throws acos_ref num_get_ref fmt_blank fmt_blank
             2 [1; 1; 1; 2; 1] truncated_input eq_refl truncated_input_serialised).
Defined.

(** The first and third of these vectors are equal; their pair is emitted. *)
Lemma pairwise_elts_by_position_witness :
  In ((1, 2), (1, 2)) (pairwise_elts [(1, 2); (3, 4); (1, 2)]).
Proof.
  refine (proj1 (pairwise_elts_by_position [(1, 2); (3, 4); (1, 2)] 0 2 _ _)).
  - simpl. lia.
  - reflexivity.
Defined.

(** No file can be opened: both ways of naming the file end on the uncaught
    error. *)
Lemma main_file_handling_witness :
  main acos_ref num_get_ref fmt_blank fmt_blank ["ex6"%string] no_files
    = Some (mkOutcome EmptyString (Uncaught (runtime_error "no input file"))) /\
  main acos_ref num_get_ref fmt_blank fmt_blank
       ["ex6"%string; "data.txt"%string] no_files
    = Some (mkOutcome EmptyString (Uncaught (runtime_error "no input file"))).
Proof.
  destruct (main_file_handling acos_ref num_get_ref fmt_blank fmt_blank
              "ex6" "data.txt" no_files) as [_ [_ [Hdefault [Harg _]]]].
  split.
  - apply Hdefault. reflexivity.
  - apply Harg. reflexivity.
Defined.

(** With two arguments the file named by the first is there, yet the run
    looks for [test.txt] and fails to open it. *)
Lemma main_ignores_extra_arguments_witness :
  main acos_ref num_get_ref fmt_blank fmt_blank
       ["ex6"%string; "a.txt"%string; "b.txt"%string] only_a_txt
    = Some (mkOutcome EmptyString (Uncaught (runtime_error "no input file"))).
Proof.
  refine (eq_trans
            (proj1 (main_ignores_extra_arguments acos_ref num_get_ref
                      fmt_blank fmt_blank
                      ["ex6"%string; "a.txt"%string; "b.txt"%string]
                      only_a_txt _)) _).
  - simpl. lia.
  - reflexivity.
Defined.

(** Two numbers, then a word: one vector, the rest of the text ignored. *)
Lemma ingest_by_parity_witness :
  ingest_dvecs num_get_ref junk_input = Some (inr [(1, 2)]).
Proof.
  exact (ingest_by_parity num_get_ref [1; 2] junk_input
           num_get_ref_consumes junk_input_yields).
Defined.

Lemma ingest_dvecs_returns_witness :
  ingest_dvecs num_get_ref junk_input <> None.
Proof.
  exact (ingest_dvecs_returns num_get_ref junk_input num_get_ref_consumes).
Defined.

Lemma theta_sort_ordered_witness :
  angle_ordered acos_ref (theta_sort acos_ref test_vecs).
Proof.
  exact (theta_sort_ordered acos_ref test_vecs test_vecs_angles_are_numbers).
Defined.

Lemma theta_sort_nan_breaks_order_witness :
  ~ angle_nondecreasing acos_ref (theta_sort acos_ref with_zero).
Proof.
  refine (theta_sort_nan_breaks_order acos_ref with_zero ((1, 0), (0, 0)) _ _ _).
  - simpl. auto.
  - reflexivity.
  - simpl. lia.
Defined.

Lemma theta_zero_vector_witness :
  theta acos_ref (0, 0) (1, 2) = acos_ref nan /\
  theta acos_ref (1, 2) (-0, 0) = acos_ref nan.
Proof.
  split.
  - refine (theta_zero_vector acos_ref (0, 0) (1, 2) (or_introl _)). reflexivity.
  - refine (theta_zero_vector acos_ref (1, 2) (-0, 0) (or_intror _)). reflexivity.
Defined.

Lemma zero_vector_breaks_order_witness :
  ~ angle_nondecreasing acos_ref (theta_sort acos_ref with_zero).
Proof.
  refine (zero_vector_breaks_order acos_ref with_zero 1 _ _ _ _).
  - reflexivity.
  - simpl. lia.
  - reflexivity.
  - simpl. lia.
Defined.


Lemma main_exception_no_output_witness :
  stdout (mkOutcome EmptyString (Uncaught (runtime_error "no input file")))
    = EmptyString /\
  (runtime_error "no input file" = runtime_error "no input file" \/
   runtime_error "no input file" = runtime_error "mismatched vector elements").
Proof.
  exact (main_exception_no_output acos_ref num_get_ref fmt_blank fmt_blank
           ["ex6"%string] no_files
           (mkOutcome EmptyString (Uncaught (runtime_error "no input file")))
           eq_refl).
Defined.

Lemma main_few_vectors_print_nothing_witness :
  main_with_file acos_ref num_get_ref fmt_blank fmt_blank (Some one_vector_input)
    = Some (mkOutcome EmptyString (Returned 0)).
Proof.
  exact (main_few_vectors_print_nothing acos_ref num_get_ref fmt_blank fmt_blank
           [1; 1] one_vector_input one_vector_input_serialised
           (or_intror eq_refl)).
Defined.

